(** * react-shopify-hooks: the global-state layer of hooksWithContext

    A shallow embedding of the persisted reducer, the session coordinator
    (useShopifyCustomerAccessTokenWithContext), the checkout coordinator
    (useShopifyCheckoutWithContext), the line-item merge of
    useShopifyProductVariantWithContext and the customer actions of
    useShopifyCustomerWithContext.

    Every async action is a computation in a small state/exception monad over
    a [World]: the persisted state, the in-memory [sessionIsNew] flag and a
    trace of the observable effects (remote gateway calls, dispatched actions,
    flag writes).  An awaited gateway call takes the value it resolves to as
    an argument of the action, so a theorem quantified over that argument
    holds for every answer of the remote service.  A [throw] in the reducer
    becomes the [Throw] outcome, which aborts the rest of the action. *)

From Stdlib Require Import String List ZArith Bool Lia.
Import ListNotations.
Open Scope string_scope.

(** ** JavaScript values that can occur as a variant id

    The variant id is whatever the caller passes to the hook: a primitive
    (in practice a string or a number; GraphQL's [ID] accepts both).
    Numbers are modelled by [Z] (line-item quantities are integers). *)

Inductive prim : Type :=
| PUndefined
| PNull
| PBool (b : bool)
| PNum (n : Z)
| PStr (s : string).

Definition prim_eqb (x y : prim) : bool :=
  match x, y with
  | PUndefined, PUndefined => true
  | PNull, PNull => true
  | PBool a, PBool b => Bool.eqb a b
  | PNum a, PNum b => Z.eqb a b
  | PStr a, PStr b => String.eqb a b
  | _, _ => false
  end.

(** A property value of a line-item object: a primitive, or an object
    (the [customAttributes] array).  An object is never SameValueZero-equal
    to a primitive. *)
Inductive value : Type :=
| VPrim (p : prim)
| VObj.

(** SameValueZero, the comparison lodash's [includes] uses
    ([baseIndexOf]); on integers it is plain equality. *)
Definition same_value_zero (p : prim) (v : value) : bool :=
  match v with
  | VPrim q => prim_eqb p q
  | VObj => false
  end.

(** ** Line items *)

(** One entry of [customAttributes]: [{ key, value }]. *)
Record attribute : Type := mkAttribute { attr_key : string; attr_value : string }.

(** [{ variantId, quantity, customAttributes }]; an absent
    [customAttributes] argument is [undefined], modelled by [None]. *)
Record LineItem : Type := mkLineItem {
  variantId : prim;
  quantity : Z;
  customAttributes : option (list attribute)
}.

(** lodash [values(lineItem)], in key order, for a line item built in this
    session: [customAttributes: undefined] is an own key and contributes
    [undefined].  An item restored from localStorage has lost that key
    through JSON and has only two values; the two differ only for
    [includes(undefined, lineItem)]. *)
Definition values (li : LineItem) : list value :=
  [ VPrim (variantId li);
    VPrim (PNum (quantity li));
    match customAttributes li with None => VPrim PUndefined | Some _ => VObj end ].

(** lodash/fp [includes(variantId, lineItem)]: a non-array-like object is
    searched through its [values] with SameValueZero. *)
Definition includes (v : prim) (li : LineItem) : bool :=
  existsb (same_value_zero v) (values li).

(** lodash's [assignMergeValue] for a primitive source value under a key the
    destination already has: [undefined] keeps the destination's value. *)
Definition assign_merge_prim (objValue srcValue : prim) : prim :=
  match srcValue with
  | PUndefined => objValue
  | _ => srcValue
  end.

(** lodash's deep merge of the [customAttributes] key.  A source array is
    merged index by index into the destination array (a fresh [] when the
    destination is not an array); each [{key, value}] element of the source
    overwrites both fields of the element at its index, and destination
    elements past the source's length are kept.  An [undefined] source keeps
    the destination's value. *)
Definition merge_attributes (objValue srcValue : option (list attribute))
  : option (list attribute) :=
  match srcValue with
  | None => objValue
  | Some src =>
      match objValue with
      | Some obj => Some (app src (skipn (length src) obj))
      | None => Some src
      end
  end.

(** [mergeWith(customizer, lineItem, newLineItem)] with the customizer
    [(objValue, srcValue, key) => key === 'quantity' ? objValue + srcValue
    : undefined]: quantities add up, every other key is merged with the new
    item's value winning. *)
Definition merge_line_item (lineItem newLineItem : LineItem) : LineItem :=
  {| variantId := assign_merge_prim (variantId lineItem) (variantId newLineItem);
     quantity := quantity lineItem + quantity newLineItem;
     customAttributes :=
       merge_attributes (customAttributes lineItem) (customAttributes newLineItem) |}.

(** The [map] over [checkoutLineItems] with its side effect on
    [duplicateResolved]: returns [mergedLineItems] and the final flag. *)
Fixpoint merge_duplicates (v : prim) (newLineItem : LineItem)
    (items : list LineItem) : list LineItem * bool :=
  match items with
  | [] => ([], false)
  | lineItem :: rest =>
      let '(rest', resolved) := merge_duplicates v newLineItem rest in
      if includes v lineItem
      then (merge_line_item lineItem newLineItem :: rest', true)
      else (lineItem :: rest', resolved)
  end.

(** [nextLineItems] computed by [addToCheckout(quantity, customAttributes)]
    of the hook instance for [variantId]. *)
Definition next_line_items (variantId : prim) (quantity : Z)
    (customAttributes : option (list attribute)) (checkoutLineItems : list LineItem)
  : list LineItem :=
  let newLineItem := mkLineItem variantId quantity customAttributes in
  let '(mergedLineItems, duplicateResolved) :=
    merge_duplicates variantId newLineItem checkoutLineItems in
  if duplicateResolved then mergedLineItems
  else newLineItem :: mergedLineItems.

(** ** The persisted reducer *)

Record PersistedState : Type := mkPersistedState {
  customerAccessToken : option string;
  customerAccessTokenExpiresAt : option string;
  checkoutId : option string;
  checkoutLineItems : list LineItem
}.

Definition initialState : PersistedState :=
  {| customerAccessToken := None;
     customerAccessTokenExpiresAt := None;
     checkoutId := None;
     checkoutLineItems := [] |}.

(** The [case] labels of the reducer's [switch]. *)
Definition case_labels : list string :=
  ["SET_CUSTOMER_ACCESS_TOKEN"; "SET_CHECKOUT_ID";
   "SET_CHECKOUT_LINE_ITEMS"; "RESET"].

Definition is_case_label (t : string) : bool :=
  existsb (String.eqb t) case_labels.

(** Actions: the four shapes the source dispatches, and any action whose
    [type] is none of the case labels (its payload is irrelevant: the
    [default] branch throws before reading it). *)
Inductive action : Type :=
| SET_CUSTOMER_ACCESS_TOKEN (accessToken expiresAt : option string)
| SET_CHECKOUT_ID (payload : option string)
| SET_CHECKOUT_LINE_ITEMS (payload : list LineItem)
| RESET
| UnrecognizedAction (type : string) (Htype : is_case_label type = false).

Definition action_type (a : action) : string :=
  match a with
  | SET_CUSTOMER_ACCESS_TOKEN _ _ => "SET_CUSTOMER_ACCESS_TOKEN"
  | SET_CHECKOUT_ID _ => "SET_CHECKOUT_ID"
  | SET_CHECKOUT_LINE_ITEMS _ => "SET_CHECKOUT_LINE_ITEMS"
  | RESET => "RESET"
  | UnrecognizedAction t _ => t
  end.

(** Outcome of a computation: a value, or a thrown [Error] with its message. *)
Inductive outcome (A : Type) : Type :=
| Ok (a : A)
| Throw (message : string).
Arguments Ok {A} a.
Arguments Throw {A} message.

Definition invalid_action_message : string :=
  "Invalid action type. Please use a supported action.".

Definition reducer (state : PersistedState) (a : action) : outcome PersistedState :=
  match a with
  | SET_CUSTOMER_ACCESS_TOKEN accessToken expiresAt =>
      Ok {| customerAccessToken := accessToken;
            customerAccessTokenExpiresAt := expiresAt;
            checkoutId := checkoutId state;
            checkoutLineItems := checkoutLineItems state |}
  | SET_CHECKOUT_ID payload =>
      Ok {| customerAccessToken := customerAccessToken state;
            customerAccessTokenExpiresAt := customerAccessTokenExpiresAt state;
            checkoutId := payload;
            checkoutLineItems := checkoutLineItems state |}
  | SET_CHECKOUT_LINE_ITEMS payload =>
      Ok {| customerAccessToken := customerAccessToken state;
            customerAccessTokenExpiresAt := customerAccessTokenExpiresAt state;
            checkoutId := checkoutId state;
            checkoutLineItems := payload |}
  | RESET => Ok initialState
  | UnrecognizedAction _ _ => Throw invalid_action_message
  end.

(** ** The remote gateway *)

Record UserError : Type := mkUserError { field : list string; message : string }.

(** A gateway result [{ data, userErrors }]; [if (result.data)] tests
    whether [data] is present. *)
Record result (D : Type) : Type := mkResult {
  data : option D;
  userErrors : list UserError
}.
Arguments mkResult {D} data userErrors.
Arguments data {D} r.
Arguments userErrors {D} r.

Record TokenData : Type := mkTokenData { accessToken : string; expiresAt : string }.
Record CheckoutData : Type := mkCheckoutData { id : string }.

Inductive remote_call : Type :=
| CreateCustomerAccessToken
| RenewCustomerAccessToken (token : option string)
| DeleteCustomerAccessToken (token : option string)
| CreateCheckout
| LineItemsReplace (lineItems : list LineItem)
| ActivateCustomer
| ResetCustomer
| ResetCustomerByUrl.

(** ** Worlds and the action monad *)

Inductive event : Type :=
| Remote (c : remote_call)
| Dispatch (a : action)
| SetSessionIsNew (b : bool).

Record World : Type := mkWorld {
  persisted : PersistedState;
  sessionIsNew : bool;
  trace : list event   (* oldest first *)
}.

Definition M (A : Type) : Type := World -> outcome (A * World).

Definition ret {A} (a : A) : M A := fun w => Ok (a, w).

Definition bind {A B} (m : M A) (k : A -> M B) : M B :=
  fun w => match m w with
           | Ok (a, w') => k a w'
           | Throw msg => Throw msg
           end.

Notation "x <- m ;; k" := (bind m (fun x => k))
  (at level 61, m at next level, right associativity).
Notation "m ;;; k" := (bind m (fun _ => k))
  (at level 61, right associativity).

Definition get_state : M PersistedState := fun w => Ok (persisted w, w).

Definition emit (e : event) (w : World) : World :=
  {| persisted := persisted w; sessionIsNew := sessionIsNew w;
     trace := app (trace w) [e] |}.

(** [dispatch(action)]: run the reducer on the current state. *)
Definition dispatch (a : action) : M unit :=
  fun w => match reducer (persisted w) a with
           | Ok s => Ok (tt, {| persisted := s; sessionIsNew := sessionIsNew w;
                                trace := app (trace w) [Dispatch a] |})
           | Throw msg => Throw msg
           end.

(** [setSessionIsNew(b)] of [useSessionStorageState('sessionIsNew', true)]. *)
Definition setSessionIsNew (b : bool) : M unit :=
  fun w => Ok (tt, {| persisted := persisted w; sessionIsNew := b;
                      trace := app (trace w) [SetSessionIsNew b] |}).

(** A gateway call; [answer] is the value its promise resolves to. *)
Definition call {A} (c : remote_call) (answer : A) : M A :=
  fun w => Ok (answer, emit (Remote c) w).

(** A gateway call whose promise is neither awaited nor inspected. *)
Definition fire (c : remote_call) : M unit :=
  fun w => Ok (tt, emit (Remote c) w).

(** JavaScript truthiness of a nullable string. *)
Definition truthy (s : option string) : bool :=
  match s with
  | None => false
  | Some x => negb (String.eqb x "")
  end.

(** ** Session coordinator: useShopifyCustomerAccessTokenWithContext *)

(** [signOut]: the deletion is started but not awaited, and its outcome is
    never looked at. *)
Definition signOut : M unit :=
  st <- get_state ;;
  (if truthy (customerAccessToken st)
   then fire (DeleteCustomerAccessToken (customerAccessToken st))
   else ret tt) ;;;
  dispatch RESET ;;;
  setSessionIsNew true.

(** [renewToken]; [answer] is what [renewCustomerAccessToken] resolves to. *)
Definition renewToken (answer : result TokenData) : M (result TokenData) :=
  st <- get_state ;;
  r <- call (RenewCustomerAccessToken (customerAccessToken st)) answer ;;
  match data r with
  | Some d =>
      dispatch (SET_CUSTOMER_ACCESS_TOKEN (Some (accessToken d)) (Some (expiresAt d))) ;;;
      ret r
  | None =>
      signOut ;;;
      ret r
  end.

Definition renewTokenAutomatically (answer : result TokenData) : M unit :=
  renewToken answer ;;;
  setSessionIsNew false ;;;
  ret tt.

(** What [renewToken] does with the answer once its [await] resumes. *)
Definition renewToken_continue (r : result TokenData) : M (result TokenData) :=
  match data r with
  | Some d =>
      dispatch (SET_CUSTOMER_ACCESS_TOKEN (Some (accessToken d)) (Some (expiresAt d))) ;;;
      ret r
  | None =>
      signOut ;;;
      ret r
  end.

Definition token_eqb (a b : option string) : bool :=
  match a, b with
  | Some x, Some y => String.eqb x y
  | None, None => true
  | _, _ => false
  end.

(** The [useEffect] of the hook, from one evaluation until every renewal it
    causes has settled.  [answer] is what the renewal it starts gets back and
    [nested] what a renewal started by a re-run of the effect gets back.

    The effect does not await [renewTokenAutomatically()].  In React 16/17 a
    [dispatch] made after an [await] renders at once, and the effect of that
    render is flushed before the next render, the one of
    [setSessionIsNew(false)].  So when the renewal dispatches a token that
    differs from the current one, the effect runs again while [sessionIsNew]
    is still true and starts a second renewal: its request is sent with the
    new token before the flag is cleared, and its answer is handled after.
    Every other render of the chain finds the token falsy or the flag false
    (or the dependencies unchanged), so nothing else is started. *)
Definition renewal_effect (answer nested : result TokenData) : M unit :=
  fun w =>
    let token := customerAccessToken (persisted w) in
    if truthy token && sessionIsNew w
    then (r <- call (RenewCustomerAccessToken token) answer ;;
          match data r with
          | Some d =>
              dispatch (SET_CUSTOMER_ACCESS_TOKEN (Some (accessToken d))
                                                  (Some (expiresAt d))) ;;;
              let fresh := Some (accessToken d) in
              let rerun := truthy fresh && negb (token_eqb token fresh) in
              (if rerun then call (RenewCustomerAccessToken fresh) nested ;;; ret tt
               else ret tt) ;;;
              setSessionIsNew false ;;;
              (if rerun then renewToken_continue nested ;;; setSessionIsNew false
               else ret tt)
          | None =>
              signOut ;;;
              setSessionIsNew false
          end) w
    else Ok (tt, w).

(** [actions.signIn]. *)
Definition signIn (answer : result TokenData) : M (result TokenData) :=
  r <- call CreateCustomerAccessToken answer ;;
  match data r with
  | Some d =>
      dispatch (SET_CUSTOMER_ACCESS_TOKEN (Some (accessToken d)) (Some (expiresAt d))) ;;;
      setSessionIsNew false ;;;
      ret r
  | None => ret r
  end.

(** ** Customer actions: useShopifyCustomerWithContext *)

(** The shape shared by [activateCustomer], [resetCustomer] and
    [resetCustomerByUrl]: call the gateway, set the token on success. *)
Definition token_setting_action (c : remote_call) (answer : result TokenData)
  : M (result TokenData) :=
  r <- call c answer ;;
  match data r with
  | Some d =>
      dispatch (SET_CUSTOMER_ACCESS_TOKEN (Some (accessToken d)) (Some (expiresAt d))) ;;;
      ret r
  | None => ret r
  end.

Definition activateCustomer := token_setting_action ActivateCustomer.
Definition resetCustomer := token_setting_action ResetCustomer.
Definition resetCustomerByUrl := token_setting_action ResetCustomerByUrl.

(** ** Checkout coordinator: useShopifyCheckoutWithContext *)

Definition createCheckoutWithContext (answer : result CheckoutData)
  : M (result CheckoutData) :=
  r <- call CreateCheckout answer ;;
  match data r with
  | Some d => dispatch (SET_CHECKOUT_ID (Some (id d))) ;;; ret r
  | None => ret r
  end.

(** The [useEffect] of the hook: [if (autoCreate && !checkoutId)
    createCheckoutWithContext()]. *)
Definition checkout_effect (autoCreate : bool) (answer : result CheckoutData) : M unit :=
  fun w =>
    if autoCreate && negb (truthy (checkoutId (persisted w)))
    then (createCheckoutWithContext answer ;;; ret tt) w
    else Ok (tt, w).

(** What [createCheckoutWithContext] does with the answer once its [await]
    resumes. *)
Definition createCheckout_continue (r : result CheckoutData) : M unit :=
  match data r with
  | Some d => dispatch (SET_CHECKOUT_ID (Some (id d)))
  | None => ret tt
  end.

Fixpoint create_calls (answers : list (result CheckoutData)) : M unit :=
  match answers with
  | [] => ret tt
  | a :: rest => call CreateCheckout a ;;; create_calls rest
  end.

Fixpoint create_continues (answers : list (result CheckoutData)) : M unit :=
  match answers with
  | [] => ret tt
  | a :: rest => createCheckout_continue a ;;; create_continues rest
  end.

(** The checkout effects of all the [useShopifyCheckoutWithContext] instances
    mounted in one commit, from their evaluation until their calls have
    settled.  An instance is given by its [autoCreate] and the answer its
    [createCheckout] call gets.  Every [useShopifyProductVariantWithContext]
    holds such an instance, created by [useShopifyCheckoutWithContext()] and so
    with [autoCreate = true].  The effects of one commit run one after another
    before any [await] resumes, so each reads the same [checkoutId] and the
    effects that fire send their requests first; the answers are handled
    afterwards, in order.  Each [SET_CHECKOUT_ID] re-runs the effects with a
    truthy [checkoutId] when the id is non-empty, which starts nothing. *)
Definition checkout_effects_on_commit (instances : list (bool * result CheckoutData))
  : M unit :=
  st <- get_state ;;
  let fired := map snd (filter (fun i => fst i && negb (truthy (checkoutId st)))
                               instances) in
  create_calls fired ;;;
  create_continues fired.

(** ** Line-item merge: useShopifyProductVariantWithContext *)

(** The default parameter [quantity = 1]. *)
Definition quantity_or_default (quantity : option Z) : Z :=
  match quantity with Some q => q | None => 1%Z end.

(** [addToCheckout(quantity, customAttributes)] of the hook instance for
    [variantId]; [answer] is what [lineItemsReplace] resolves to. *)
Definition addToCheckout {D} (variantId : prim) (quantity : option Z)
    (customAttributes : option (list attribute)) (answer : result D) : M unit :=
  st <- get_state ;;
  let nextLineItems :=
    next_line_items variantId (quantity_or_default quantity) customAttributes
      (checkoutLineItems st) in
  call (LineItemsReplace nextLineItems) answer ;;;
  dispatch (SET_CHECKOUT_LINE_ITEMS nextLineItems).

(** ** Runs of a process

    A process is a sequence of steps; each step is an action of the caller
    or an evaluation of the session [useEffect] (the observer that React
    runs after a render). *)
Inductive step : Type :=
| StepObserveSession (answer nested : result TokenData)
| StepSignIn (answer : result TokenData)
| StepSignOut
| StepActivateCustomer (answer : result TokenData).

Definition run_step (s : step) : M unit :=
  match s with
  | StepObserveSession a n => renewal_effect a n
  | StepSignIn a => signIn a ;;; ret tt
  | StepSignOut => signOut
  | StepActivateCustomer a => activateCustomer a ;;; ret tt
  end.

Fixpoint run (steps : list step) : M unit :=
  match steps with
  | [] => ret tt
  | s :: rest => run_step s ;;; run rest
  end.

Definition is_renew_call (e : event) : bool :=
  match e with
  | Remote (RenewCustomerAccessToken _) => true
  | _ => false
  end.

Definition count_renew_calls (t : list event) : nat :=
  length (filter is_renew_call t).

Definition is_create_checkout_call (e : event) : bool :=
  match e with
  | Remote CreateCheckout => true
  | _ => false
  end.

Definition is_dispatch (e : event) : bool :=
  match e with
  | Dispatch _ => true
  | _ => false
  end.

(** [isSignedIn: Boolean(customerAccessToken)] returned by the session hook. *)
Definition isSignedIn (w : World) : bool := truthy (customerAccessToken (persisted w)).

(** Sum of the quantities of a line-item sequence. *)
Definition sum_quantities (items : list LineItem) : Z :=
  fold_right (fun li acc => (quantity li + acc)%Z) 0%Z items.

(** Number of entries the duplicate test of [addToCheckout] matches. *)
Definition count_matches (v : prim) (items : list LineItem) : nat :=
  length (filter (includes v) items).

(** A sequence of awaited [addToCheckout] calls, each with the hook instance
    of its variant id and the answer its [lineItemsReplace] resolves to. *)
Fixpoint addToCheckout_all
    (calls : list (prim * option Z * option (list attribute) * result CheckoutData))
  : M unit :=
  match calls with
  | [] => ret tt
  | (v, q, attrs, answer) :: rest => addToCheckout v q attrs answer ;;; addToCheckout_all rest
  end.

(** The calls of a sequence of [addToCheckout] with string variant ids:
    (variant id, quantity, customAttributes, replace answer). *)
Definition string_call (c : string * Z * option (list attribute) * result CheckoutData)
  : prim * option Z * option (list attribute) * result CheckoutData :=
  let '(s, q, a, r) := c in (PStr s, Some q, a, r).

Definition call_variant (c : string * Z * option (list attribute) * result CheckoutData)
  : string :=
  let '(s, _, _, _) := c in s.

Definition call_line_item (c : string * Z * option (list attribute) * result CheckoutData)
  : LineItem :=
  let '(s, q, a, _) := c in mkLineItem (PStr s) q a.

(** Every action the hooks expose to callers, and the two observers. *)
Inductive operation : Type :=
| OpSignIn (answer : result TokenData)
| OpRenewToken (answer : result TokenData)
| OpSignOut
| OpRenewalEffect (answer nested : result TokenData)
| OpActivateCustomer (answer : result TokenData)
| OpResetCustomer (answer : result TokenData)
| OpResetCustomerByUrl (answer : result TokenData)
| OpCreateCheckout (answer : result CheckoutData)
| OpCheckoutEffect (autoCreate : bool) (answer : result CheckoutData)
| OpAddToCheckout (v : prim) (q : option Z) (attrs : option (list attribute))
                  (answer : result CheckoutData).

Definition run_operation (o : operation) : M unit :=
  match o with
  | OpSignIn a => signIn a ;;; ret tt
  | OpRenewToken a => renewToken a ;;; ret tt
  | OpSignOut => signOut
  | OpRenewalEffect a n => renewal_effect a n
  | OpActivateCustomer a => activateCustomer a ;;; ret tt
  | OpResetCustomer a => resetCustomer a ;;; ret tt
  | OpResetCustomerByUrl a => resetCustomerByUrl a ;;; ret tt
  | OpCreateCheckout a => createCheckoutWithContext a ;;; ret tt
  | OpCheckoutEffect b a => checkout_effect b a
  | OpAddToCheckout v q attrs a => addToCheckout v q attrs a
  end.

Fixpoint run_operations (ops : list operation) : M unit :=
  match ops with
  | [] => ret tt
  | o :: rest => run_operation o ;;; run_operations rest
  end.

(** The token and its expiry are both present or both absent. *)
Definition token_paired (st : PersistedState) : bool :=
  match customerAccessToken st, customerAccessTokenExpiresAt st with
  | Some _, Some _ | None, None => true
  | _, _ => false
  end.

(** A computation that, from every world whose token is paired, completes
    without throwing in a world whose token is still paired. *)
Definition keeps_pairing {A} (m : M A) : Prop :=
  forall w, token_paired (persisted w) = true ->
    exists a w', m w = Ok (a, w') /\ token_paired (persisted w') = true.

(** ** Facts used by several proofs *)

Lemma merge_duplicates_resolved (v : prim) (newLineItem : LineItem) (items : list LineItem) :
  snd (merge_duplicates v newLineItem items) = existsb (includes v) items.
Proof.
  induction items as [|li rest IH]; simpl; [reflexivity|].
  destruct (merge_duplicates v newLineItem rest) as [rest' resolved] eqn:E.
  simpl in IH. destruct (includes v li); simpl; auto.
Qed.

Lemma merge_duplicates_untouched (v : prim) (newLineItem : LineItem) (items : list LineItem) :
  existsb (includes v) items = false ->
  merge_duplicates v newLineItem items = (items, false).
Proof.
  induction items as [|li rest IH]; simpl; [reflexivity|].
  intros H. apply orb_false_iff in H as [H1 H2].
  rewrite (IH H2), H1. reflexivity.
Qed.

Lemma prim_eqb_refl (p : prim) : prim_eqb p p = true.
Proof.
  destruct p; simpl; auto using Z.eqb_refl, String.eqb_refl.
  destruct b; reflexivity.
Qed.

Lemma includes_own_variantId (li : LineItem) : includes (variantId li) li = true.
Proof. unfold includes. simpl. now rewrite prim_eqb_refl. Qed.

(** Spec section 8, third scenario, with string variant ids. *)
Example add_v1_v2_v1 :
  let l1 := next_line_items (PStr "v1") 2 None [] in
  let l2 := next_line_items (PStr "v2") 1 None l1 in
  next_line_items (PStr "v1") 3 None l2
  = [mkLineItem (PStr "v2") 1 None; mkLineItem (PStr "v1") 5 None].
Proof. reflexivity. Qed.

(** Effects of the coordinator actions on a world. *)

Lemma signOut_world :
  forall w : World,
    signOut w =
    Ok (tt, {| persisted := initialState;
               sessionIsNew := true;
               trace := trace w
                        ++ (if truthy (customerAccessToken (persisted w))
                            then [Remote (DeleteCustomerAccessToken
                                            (customerAccessToken (persisted w)))]
                            else [])
                        ++ [Dispatch RESET; SetSessionIsNew true] |}).
Proof.
  intros w. unfold signOut, bind, get_state.
  destruct (truthy (customerAccessToken (persisted w))); simpl;
    unfold setSessionIsNew, dispatch, fire, ret, emit; simpl;
    now rewrite <- ?app_assoc.
Qed.

Lemma addToCheckout_world :
  forall (D : Type) (w : World) (v : prim) (q : option Z)
         (attrs : option (list attribute)) (answer : result D),
    let next := next_line_items v (quantity_or_default q) attrs
                  (checkoutLineItems (persisted w)) in
    addToCheckout v q attrs answer w =
    Ok (tt, {| persisted :=
                 {| customerAccessToken := customerAccessToken (persisted w);
                    customerAccessTokenExpiresAt :=
                      customerAccessTokenExpiresAt (persisted w);
                    checkoutId := checkoutId (persisted w);
                    checkoutLineItems := next |};
               sessionIsNew := sessionIsNew w;
               trace := trace w ++ [Remote (LineItemsReplace next);
                                    Dispatch (SET_CHECKOUT_LINE_ITEMS next)] |}).
Proof.
  intros D w v q attrs answer next.
  unfold addToCheckout, bind, get_state, call, dispatch, emit. simpl.
  now rewrite <- app_assoc.
Qed.

Lemma renewToken_world :
  forall (w : World) (answer : result TokenData),
    let w1 := emit (Remote (RenewCustomerAccessToken
                              (customerAccessToken (persisted w)))) w in
    match data answer with
    | Some d =>
        renewToken answer w =
        Ok (answer,
            {| persisted :=
                 {| customerAccessToken := Some (accessToken d);
                    customerAccessTokenExpiresAt := Some (expiresAt d);
                    checkoutId := checkoutId (persisted w);
                    checkoutLineItems := checkoutLineItems (persisted w) |};
               sessionIsNew := sessionIsNew w;
               trace := trace w1 ++
                        [Dispatch (SET_CUSTOMER_ACCESS_TOKEN
                                     (Some (accessToken d)) (Some (expiresAt d)))] |})
    | None =>
        exists w', signOut w1 = Ok (tt, w') /\ renewToken answer w = Ok (answer, w')
    end.
Proof.
  intros w answer w1.
  destruct answer as [[d|] errors]; simpl.
  - reflexivity.
  - eexists. split; [apply signOut_world|].
    unfold renewToken. cbn -[signOut]. fold w1.
    unfold bind at 1. rewrite (signOut_world w1). reflexivity.
Qed.

(** ** Claims *)

(** C9: the reducer throws [Error('Invalid action type. ...')] on an action
    whose type is none of its case labels, and the throw aborts whatever the
    dispatching action does next; on each of the four recognised actions it
    returns a new state and never throws. *)
Theorem reducer_throws_only_on_unrecognized_type :
  forall (w : World) (a : action),
    match a with
    | UnrecognizedAction _ _ =>
        reducer (persisted w) a = Throw invalid_action_message /\
        forall (B : Type) (k : unit -> M B),
          bind (dispatch a) k w = Throw invalid_action_message
    | _ => exists state', reducer (persisted w) a = Ok state'
    end.
Proof.
  intros w a. destruct a.
  1-4: eexists; reflexivity.
  split; [reflexivity|].
  intros B k. reflexivity.
Qed.

(** C5: from every world, [signOut()] leaves the persisted state equal to
    [initialState] and [sessionIsNew] true; it records a deletion request of
    the token exactly when the token is present (truthy), and since that
    request is neither awaited nor inspected, its outcome cannot change the
    result. *)
Theorem signOut_resets_to_initial_state :
  forall w : World,
    signOut w =
    Ok (tt, {| persisted := initialState;
               sessionIsNew := true;
               trace := trace w
                        ++ (if truthy (customerAccessToken (persisted w))
                            then [Remote (DeleteCustomerAccessToken
                                            (customerAccessToken (persisted w)))]
                            else [])
                        ++ [Dispatch RESET; SetSessionIsNew true] |}).
Proof. exact signOut_world. Qed.

(** C10: when the gateway answer carries no data, signIn, createCheckout,
    activateCustomer, resetCustomer and resetCustomerByUrl only record their
    gateway call: no dispatch, the persisted state and [sessionIsNew] are
    unchanged, and the answer is returned to the caller. *)
Theorem failed_gateway_answer_changes_nothing :
  forall (w : World) (errors : list UserError),
    let failed := mkResult (D := TokenData) None errors in
    signIn failed w = Ok (failed, emit (Remote CreateCustomerAccessToken) w) /\
    createCheckoutWithContext (mkResult None errors) w
      = Ok (mkResult None errors, emit (Remote CreateCheckout) w) /\
    activateCustomer failed w = Ok (failed, emit (Remote ActivateCustomer) w) /\
    resetCustomer failed w = Ok (failed, emit (Remote ResetCustomer) w) /\
    resetCustomerByUrl failed w = Ok (failed, emit (Remote ResetCustomerByUrl) w).
Proof.
  intros w errors failed.
  repeat split; reflexivity.
Qed.

(** C4: whatever [lineItemsReplace] resolves to (data or userErrors),
    [addToCheckout] first records the replace call with the computed
    sequence and then dispatches [SET_CHECKOUT_LINE_ITEMS] with that same
    sequence, which becomes the persisted [checkoutLineItems]. *)
Theorem addToCheckout_persists_unconditionally :
  forall (D : Type) (w : World) (v : prim) (q : option Z)
         (attrs : option (list attribute)) (answer : result D),
    let next := next_line_items v (quantity_or_default q) attrs
                  (checkoutLineItems (persisted w)) in
    addToCheckout v q attrs answer w =
    Ok (tt, {| persisted :=
                 {| customerAccessToken := customerAccessToken (persisted w);
                    customerAccessTokenExpiresAt :=
                      customerAccessTokenExpiresAt (persisted w);
                    checkoutId := checkoutId (persisted w);
                    checkoutLineItems := next |};
               sessionIsNew := sessionIsNew w;
               trace := trace w ++ [Remote (LineItemsReplace next);
                                    Dispatch (SET_CHECKOUT_LINE_ITEMS next)] |}).
Proof. exact addToCheckout_world. Qed.

(** C7: [renewToken()] calls the gateway with the current token.  With a
    data payload it dispatches [SET_CUSTOMER_ACCESS_TOKEN] with the returned
    [accessToken] and [expiresAt] and returns the answer; without one it runs
    [signOut()] (an ordinary completion, no throw) and returns the answer. *)
Theorem renewToken_sets_token_or_signs_out :
  forall (w : World) (answer : result TokenData),
    let w1 := emit (Remote (RenewCustomerAccessToken
                              (customerAccessToken (persisted w)))) w in
    match data answer with
    | Some d =>
        renewToken answer w =
        Ok (answer,
            {| persisted :=
                 {| customerAccessToken := Some (accessToken d);
                    customerAccessTokenExpiresAt := Some (expiresAt d);
                    checkoutId := checkoutId (persisted w);
                    checkoutLineItems := checkoutLineItems (persisted w) |};
               sessionIsNew := sessionIsNew w;
               trace := trace w1 ++
                        [Dispatch (SET_CUSTOMER_ACCESS_TOKEN
                                     (Some (accessToken d)) (Some (expiresAt d)))] |})
    | None =>
        exists w', signOut w1 = Ok (tt, w') /\ renewToken answer w = Ok (answer, w')
    end.
Proof. exact renewToken_world. Qed.



(** C2 (code bug): the duplicate test is lodash's [includes(variantId,
    lineItem)], which searches every value of the entry.  With numeric
    variant ids, adding variant 2 to a checkout holding variant 1 with
    quantity 2 merges into the variant-1 entry, which then carries variant
    id 2 and quantity 3. *)
Theorem addToCheckout_merges_into_other_variant :
  let w := {| persisted := {| customerAccessToken := None;
                              customerAccessTokenExpiresAt := None;
                              checkoutId := Some "c";
                              checkoutLineItems := [mkLineItem (PNum 1) 2 None] |};
              sessionIsNew := false; trace := [] |} in
  exists w',
    addToCheckout (PNum 2) (Some 1%Z) None (mkResult (D := CheckoutData) None []) w
      = Ok (tt, w') /\
    checkoutLineItems (persisted w') = [mkLineItem (PNum 2) 3 None].
Proof. cbv. eexists. split; reflexivity. Qed.

(** C3 (code bug, same [includes] defect as C2): starting from the empty
    sequence, adding variant 1 with quantity 5 and then the distinct
    variant 5 with quantity 1 leaves one entry, not two. *)
Theorem addToCheckout_distinct_ids_collapse :
  let w0 := {| persisted := initialState; sessionIsNew := false; trace := [] |} in
  let ok := mkResult (D := CheckoutData) (Some (mkCheckoutData "c")) [] in
  exists w1 w2,
    addToCheckout (PNum 1) (Some 5%Z) None ok w0 = Ok (tt, w1) /\
    addToCheckout (PNum 5) (Some 1%Z) None ok w1 = Ok (tt, w2) /\
    checkoutLineItems (persisted w2) = [mkLineItem (PNum 5) 6 None] /\
    length (checkoutLineItems (persisted w2)) = 1%nat.
Proof. cbv. do 2 eexists. repeat split; reflexivity. Qed.

(** ** Further properties of the code *)

Lemma prim_eqb_true (x y : prim) : prim_eqb x y = true <-> x = y.
Proof.
  split.
  - destruct x, y; simpl; intros H; try discriminate; try reflexivity.
    + apply Bool.eqb_prop in H. now subst.
    + apply Z.eqb_eq in H. now subst.
    + apply String.eqb_eq in H. now subst.
  - intros ->. apply prim_eqb_refl.
Qed.

Lemma merge_duplicates_length (v : prim) (n : LineItem) (items : list LineItem) :
  length (fst (merge_duplicates v n items)) = length items.
Proof.
  induction items as [|li rest IH]; simpl; [reflexivity|].
  destruct (merge_duplicates v n rest) as [rest' r]. simpl in IH.
  destruct (includes v li); simpl; now rewrite IH.
Qed.

Lemma merge_duplicates_sum (v : prim) (n : LineItem) (items : list LineItem) :
  sum_quantities (fst (merge_duplicates v n items))
  = (sum_quantities items + quantity n * Z.of_nat (count_matches v items))%Z.
Proof.
  unfold count_matches.
  induction items as [|li rest IH]; simpl; [lia|].
  destruct (merge_duplicates v n rest) as [rest' r]. simpl in IH.
  destruct (includes v li); simpl; rewrite IH; simpl; lia.
Qed.

Lemma existsb_count_matches (v : prim) (items : list LineItem) :
  existsb (includes v) items = false <-> count_matches v items = 0%nat.
Proof.
  unfold count_matches.
  induction items as [|li rest IH]; simpl; [tauto|].
  destruct (includes v li); simpl; [split; discriminate|exact IH].
Qed.

(** X1: [addToCheckout] grows the sequence by one entry when its duplicate
    test matches nothing, and keeps its length otherwise. *)
Theorem next_line_items_length :
  forall v q attrs items,
    length (next_line_items v q attrs items)
    = (length items + (if existsb (includes v) items then 0 else 1))%nat.
Proof.
  intros v q attrs items. unfold next_line_items.
  pose proof (merge_duplicates_resolved v (mkLineItem v q attrs) items) as R.
  pose proof (merge_duplicates_length v (mkLineItem v q attrs) items) as L.
  destruct (merge_duplicates v (mkLineItem v q attrs) items) as [m r].
  simpl in R, L. subst r.
  destruct (existsb (includes v) items); simpl; lia.
Qed.

(** X2: the total quantity grows by [quantity] times the number of entries
    the duplicate test matches, or by [quantity] once when it matches
    none. *)
Theorem next_line_items_sum_quantities :
  forall v q attrs items,
    sum_quantities (next_line_items v q attrs items)
    = (sum_quantities items + q * Z.of_nat (Nat.max 1 (count_matches v items)))%Z.
Proof.
  intros v q attrs items. unfold next_line_items.
  pose proof (merge_duplicates_resolved v (mkLineItem v q attrs) items) as R.
  pose proof (merge_duplicates_sum v (mkLineItem v q attrs) items) as Hs.
  pose proof (existsb_count_matches v items) as C.
  destruct (merge_duplicates v (mkLineItem v q attrs) items) as [m r].
  simpl in R, Hs. subst r.
  destruct (existsb (includes v) items) eqn:E.
  - rewrite Hs. destruct (count_matches v items) as [|k] eqn:K.
    + destruct C as [_ C]. specialize (C eq_refl). discriminate.
    + replace (Nat.max 1 (S k)) with (S k) by lia. reflexivity.
  - destruct C as [C _]. rewrite (C eq_refl) in Hs |- *. simpl. rewrite Hs. lia.
Qed.

Lemma includes_PStr :
  forall (s : string) (li : LineItem),
    includes (PStr s) li = true <-> variantId li = PStr s.
Proof.
  intros s li. unfold includes, values, existsb, same_value_zero.
  replace (prim_eqb (PStr s) (PNum (quantity li))) with false by reflexivity.
  destruct (customAttributes li); cbv beta iota;
    [|replace (prim_eqb (PStr s) PUndefined) with false by reflexivity];
    rewrite !orb_false_r, prim_eqb_true; split; intros H; symmetry; exact H.
Qed.

(** X3: for a string variant id the duplicate test is exact: it matches an
    entry if and only if the entry's [variantId] is that string. *)
Theorem includes_string_exact :
  forall (s : string) (li : LineItem),
    includes (PStr s) li = true <-> variantId li = PStr s.
Proof. exact includes_PStr. Qed.

Lemma merge_duplicates_variantIds (s : string) (n : LineItem) (items : list LineItem) :
  variantId n = PStr s ->
  map variantId (fst (merge_duplicates (PStr s) n items)) = map variantId items.
Proof.
  intros Hn. induction items as [|li rest IH]; simpl; [reflexivity|].
  destruct (merge_duplicates (PStr s) n rest) as [rest' r]. simpl in IH.
  destruct (includes (PStr s) li) eqn:E; simpl; rewrite IH; [|reflexivity].
  apply includes_PStr in E. simpl. rewrite Hn, E. reflexivity.
Qed.

Lemma not_in_variantIds (s : string) (items : list LineItem) :
  existsb (includes (PStr s)) items = false -> ~ In (PStr s) (map variantId items).
Proof.
  intros H Hin. apply in_map_iff in Hin as [li [Hv Hli]].
  assert (includes (PStr s) li = true) as Hi by (apply includes_PStr; exact Hv).
  assert (existsb (includes (PStr s)) items = true) as Ht
    by (apply existsb_exists; eauto).
  congruence.
Qed.

Lemma in_variantIds_existsb (s : string) (items : list LineItem) :
  ~ In (PStr s) (map variantId items) -> existsb (includes (PStr s)) items = false.
Proof.
  intros H. destruct (existsb (includes (PStr s)) items) eqn:E; [|reflexivity].
  apply existsb_exists in E as [li [Hli Hi]]. apply includes_PStr in Hi.
  exfalso. apply H. rewrite <- Hi. now apply in_map.
Qed.

(** X4: with a string variant id, [addToCheckout] keeps the variant ids of
    the sequence pairwise distinct: if they were distinct before, they are
    after. *)
Theorem next_line_items_string_ids_unique :
  forall (s : string) q attrs items,
    NoDup (map variantId items) ->
    NoDup (map variantId (next_line_items (PStr s) q attrs items)).
Proof.
  intros s q attrs items Hnd. unfold next_line_items.
  pose proof (merge_duplicates_resolved (PStr s) (mkLineItem (PStr s) q attrs) items) as R.
  pose proof (merge_duplicates_variantIds s (mkLineItem (PStr s) q attrs) items eq_refl) as V.
  destruct (merge_duplicates (PStr s) (mkLineItem (PStr s) q attrs) items) as [m r].
  simpl in R, V. subst r.
  destruct (existsb (includes (PStr s)) items) eqn:E.
  - now rewrite V.
  - simpl. rewrite V. constructor; [now apply not_in_variantIds|exact Hnd].
Qed.

Lemma next_line_items_string_ids_unique_witness :
  NoDup (map variantId [mkLineItem (PStr "a") 1 None; mkLineItem (PStr "b") 2 None]) /\
  NoDup (map variantId (next_line_items (PStr "a") 3 None
                          [mkLineItem (PStr "a") 1 None; mkLineItem (PStr "b") 2 None])).
Proof.
  assert (H : NoDup (map variantId [mkLineItem (PStr "a") 1 None;
                                    mkLineItem (PStr "b") 2 None])).
  { simpl. constructor; [simpl; intros [E|[]]; discriminate|].
    constructor; [intros []|constructor]. }
  split; [exact H|]. exact (next_line_items_string_ids_unique "a" 3 None _ H).
Defined.

Lemma merge_duplicates_nth_kept (v : prim) (n : LineItem) (items : list LineItem) :
  forall i li, nth_error items i = Some li -> includes v li = false ->
    nth_error (fst (merge_duplicates v n items)) i = Some li.
Proof.
  induction items as [|x rest IH]; intros i li Hi Hv; [destruct i; discriminate|].
  simpl. destruct (merge_duplicates v n rest) as [rest' r] eqn:E.
  destruct i as [|i]; simpl in Hi.
  - injection Hi as <-. rewrite Hv. reflexivity.
  - specialize (IH i li Hi Hv). simpl in IH.
    destruct (includes v x); exact IH.
Qed.

Lemma merge_duplicates_nth_merged (v : prim) (n : LineItem) (items : list LineItem) :
  forall i li, nth_error items i = Some li -> includes v li = true ->
    nth_error (fst (merge_duplicates v n items)) i = Some (merge_line_item li n).
Proof.
  induction items as [|x rest IH]; intros i li Hi Hv; [destruct i; discriminate|].
  simpl. destruct (merge_duplicates v n rest) as [rest' r] eqn:E.
  destruct i as [|i]; simpl in Hi.
  - injection Hi as <-. rewrite Hv. reflexivity.
  - specialize (IH i li Hi Hv). simpl in IH.
    destruct (includes v x); exact IH.
Qed.

(** X5: an entry the duplicate test does not match is left as it was, at
    the same index when some entry matched and one index further (behind
    the prepended candidate) otherwise. *)
Theorem next_line_items_unmatched_kept :
  forall v q attrs items i li,
    nth_error items i = Some li -> includes v li = false ->
    nth_error (next_line_items v q attrs items)
              (if existsb (includes v) items then i else S i) = Some li.
Proof.
  intros v q attrs items i li Hi Hv. unfold next_line_items.
  pose proof (merge_duplicates_resolved v (mkLineItem v q attrs) items) as R.
  pose proof (merge_duplicates_nth_kept v (mkLineItem v q attrs) items i li Hi Hv) as K.
  destruct (merge_duplicates v (mkLineItem v q attrs) items) as [m r].
  simpl in R, K. subst r.
  destruct (existsb (includes v) items); exact K.
Qed.

Lemma next_line_items_unmatched_kept_witness :
  nth_error (next_line_items (PStr "c") 1 None
               [mkLineItem (PStr "a") 1 None; mkLineItem (PStr "b") 2 None])
            (if existsb (includes (PStr "c"))
                  [mkLineItem (PStr "a") 1 None; mkLineItem (PStr "b") 2 None]
             then 1 else 2)%nat
  = Some (mkLineItem (PStr "b") 2 None).
Proof. apply next_line_items_unmatched_kept; reflexivity. Defined.

(** X6: adding a string variant that is already at index [i] without
    [customAttributes] adds the quantity to that entry in place and keeps
    its attributes. *)
Theorem next_line_items_readd_keeps_attributes :
  forall (s : string) q items i li,
    nth_error items i = Some li -> variantId li = PStr s ->
    nth_error (next_line_items (PStr s) q None items) i
    = Some (mkLineItem (PStr s) (quantity li + q) (customAttributes li)).
Proof.
  intros s q items i li Hi Hv.
  assert (Hm : includes (PStr s) li = true) by (apply includes_PStr; exact Hv).
  assert (Hex : existsb (includes (PStr s)) items = true)
    by (apply existsb_exists; exists li; split; [eapply nth_error_In; eauto|exact Hm]).
  unfold next_line_items.
  pose proof (merge_duplicates_resolved (PStr s) (mkLineItem (PStr s) q None) items) as R.
  pose proof (merge_duplicates_nth_merged (PStr s) (mkLineItem (PStr s) q None)
                items i li Hi Hm) as K.
  destruct (merge_duplicates (PStr s) (mkLineItem (PStr s) q None) items) as [m r].
  simpl in R, K. rewrite Hex in R. subst r. rewrite K.
  unfold merge_line_item. simpl. reflexivity.
Qed.

Lemma next_line_items_readd_keeps_attributes_witness :
  let li := mkLineItem (PStr "a") 2 (Some [mkAttribute "gift" "yes"]) in
  nth_error (next_line_items (PStr "a") 3 None [mkLineItem (PStr "b") 1 None; li]) 1
  = Some (mkLineItem (PStr "a") (quantity li + 3) (customAttributes li)).
Proof. intros li. apply next_line_items_readd_keeps_attributes; reflexivity. Defined.

(** X7: a sequence of awaited [addToCheckout] calls with pairwise distinct
    string variant ids, none of them already in the checkout, prepends one
    entry per call: the final sequence is the calls' line items newest first,
    followed by the original entries. *)
Theorem addToCheckout_all_distinct_strings :
  forall calls (w : World),
    NoDup (map call_variant calls) ->
    (forall c, In c calls ->
       ~ In (PStr (call_variant c)) (map variantId (checkoutLineItems (persisted w)))) ->
    exists w', addToCheckout_all (map string_call calls) w = Ok (tt, w') /\
               checkoutLineItems (persisted w')
               = (rev (map call_line_item calls) ++ checkoutLineItems (persisted w))%list.
Proof.
  induction calls as [|c rest IH]; intros w Hnd Hfresh.
  - exists w. split; reflexivity.
  - destruct c as [[[s q] a] r].
    simpl in Hnd. inversion Hnd as [|? ? Hs Hnd']. subst.
    assert (Hnone : existsb (includes (PStr s)) (checkoutLineItems (persisted w)) = false).
    { apply in_variantIds_existsb. apply (Hfresh (s, q, a, r)). now left. }
    simpl. unfold bind at 1. rewrite addToCheckout_world.
    set (w1 := {| persisted := _; sessionIsNew := _; trace := _ |}).
    assert (Hitems : checkoutLineItems (persisted w1)
                     = mkLineItem (PStr s) q a :: checkoutLineItems (persisted w)).
    { simpl. unfold next_line_items.
      rewrite merge_duplicates_untouched by exact Hnone. reflexivity. }
    destruct (IH w1 Hnd') as [w' [Hrun Hw']].
    { intros c' Hc'. rewrite Hitems. simpl. intros [E|E].
      - injection E as E. apply Hs. rewrite E. now apply in_map.
      - apply (Hfresh c'); [now right|exact E]. }
    exists w'. split; [exact Hrun|].
    rewrite Hw', Hitems. simpl. rewrite <- app_assoc. reflexivity.
Qed.

Lemma addToCheckout_all_distinct_strings_witness :
  let ok := mkResult (D := CheckoutData) None [] in
  let calls := [("a", 1%Z, None, ok); ("b", 2%Z, None, ok); ("c", 3%Z, None, ok)] in
  let w := {| persisted := initialState; sessionIsNew := false; trace := [] |} in
  exists w', addToCheckout_all (map string_call calls) w = Ok (tt, w') /\
             checkoutLineItems (persisted w')
             = (rev (map call_line_item calls) ++ checkoutLineItems (persisted w))%list.
Proof.
  intros ok calls w. apply addToCheckout_all_distinct_strings.
  - simpl. repeat constructor; simpl; intuition discriminate.
  - intros c _ [].
Defined.

(** X8: a [signIn] whose answer carries data with a non-empty token leaves
    the user signed in ([isSignedIn] true) with the returned token and
    expiry persisted and [sessionIsNew] false. *)
Theorem signIn_success_signs_in :
  forall (w : World) (answer : result TokenData) (d : TokenData),
    data answer = Some d -> accessToken d <> "" ->
    exists w', signIn answer w = Ok (answer, w') /\
               isSignedIn w' = true /\ sessionIsNew w' = false /\
               customerAccessToken (persisted w') = Some (accessToken d) /\
               customerAccessTokenExpiresAt (persisted w') = Some (expiresAt d).
Proof.
  intros w [dat errors] d Hd Hne. simpl in Hd. subst dat.
  eexists. split; [reflexivity|]. unfold isSignedIn. simpl.
  destruct (String.eqb (accessToken d) "") eqn:E.
  - apply String.eqb_eq in E. contradiction.
  - repeat split.
Qed.

Lemma signIn_success_signs_in_witness :
  let d := mkTokenData "tok" "2030-01-01" in
  let w := {| persisted := initialState; sessionIsNew := true; trace := [] |} in
  exists w', signIn (mkResult (Some d) []) w = Ok (mkResult (Some d) [], w') /\
             isSignedIn w' = true /\ sessionIsNew w' = false /\
             customerAccessToken (persisted w') = Some (accessToken d) /\
             customerAccessTokenExpiresAt (persisted w') = Some (expiresAt d).
Proof.
  intros d w. apply signIn_success_signs_in; [reflexivity|discriminate].
Defined.

(** X9: signing out twice in a row: the second [signOut] requests no token
    deletion (the token is already gone) and leaves the persisted state as
    the first left it. *)
Theorem signOut_twice :
  forall w : World,
    exists w1 w2, signOut w = Ok (tt, w1) /\ signOut w1 = Ok (tt, w2) /\
                  persisted w2 = persisted w1 /\ sessionIsNew w2 = true /\
                  trace w2 = (trace w1 ++ [Dispatch RESET; SetSessionIsNew true])%list.
Proof.
  intros w. do 2 eexists. split; [apply signOut_world|].
  split; [apply signOut_world|]. simpl. repeat split.
Qed.


(** X11: after [signOut], an evaluation of the checkout observer with
    auto-create on creates a new checkout: a successful answer leaves a
    signed-out state whose [checkoutId] is the new checkout's id and whose
    line items are empty. *)
Theorem signOut_then_checkout_autocreate :
  forall (w : World) (d : CheckoutData) (errors : list UserError),
    exists w1 w2,
      signOut w = Ok (tt, w1) /\
      checkout_effect true (mkResult (Some d) errors) w1 = Ok (tt, w2) /\
      persisted w2 = {| customerAccessToken := None;
                        customerAccessTokenExpiresAt := None;
                        checkoutId := Some (id d);
                        checkoutLineItems := [] |} /\
      trace w2 = (trace w1 ++ [Remote CreateCheckout;
                               Dispatch (SET_CHECKOUT_ID (Some (id d)))])%list.
Proof.
  intros w d errors. do 2 eexists. split; [apply signOut_world|].
  split; [reflexivity|]. simpl. rewrite <- !app_assoc. split; reflexivity.
Qed.

Lemma kp_ret {A} (a : A) : keeps_pairing (ret a).
Proof. intros w H. exists a, w. split; [reflexivity|exact H]. Qed.

Lemma kp_bind {A B} (m : M A) (k : A -> M B) :
  keeps_pairing m -> (forall a, keeps_pairing (k a)) -> keeps_pairing (bind m k).
Proof.
  intros Hm Hk w H. destruct (Hm w H) as [a [w1 [E H1]]].
  unfold bind. rewrite E. exact (Hk a w1 H1).
Qed.

Lemma kp_get_state : keeps_pairing get_state.
Proof. intros w H. do 2 eexists. split; [reflexivity|exact H]. Qed.

Lemma kp_call {A} c (answer : A) : keeps_pairing (call c answer).
Proof. intros w H. do 2 eexists. split; [reflexivity|exact H]. Qed.

Lemma kp_fire c : keeps_pairing (fire c).
Proof. intros w H. do 2 eexists. split; [reflexivity|exact H]. Qed.

Lemma kp_setSessionIsNew b : keeps_pairing (setSessionIsNew b).
Proof. intros w H. do 2 eexists. split; [reflexivity|exact H]. Qed.

Lemma kp_dispatch_token t e :
  keeps_pairing (dispatch (SET_CUSTOMER_ACCESS_TOKEN (Some t) (Some e))).
Proof. intros w H. do 2 eexists. split; reflexivity. Qed.

Lemma kp_dispatch_checkout_id i : keeps_pairing (dispatch (SET_CHECKOUT_ID i)).
Proof. intros w H. do 2 eexists. split; [reflexivity|exact H]. Qed.

Lemma kp_dispatch_line_items l : keeps_pairing (dispatch (SET_CHECKOUT_LINE_ITEMS l)).
Proof. intros w H. do 2 eexists. split; [reflexivity|exact H]. Qed.

Lemma kp_dispatch_reset : keeps_pairing (dispatch RESET).
Proof. intros w H. do 2 eexists. split; reflexivity. Qed.

Create HintDb pairing.
#[local] Hint Resolve kp_ret kp_get_state kp_call kp_fire kp_setSessionIsNew
  kp_dispatch_token kp_dispatch_checkout_id kp_dispatch_line_items
  kp_dispatch_reset : pairing.

Ltac keeps :=
  repeat (apply kp_bind; [|intros ?]);
  try (match goal with |- keeps_pairing (if ?b then _ else _) => destruct b end);
  auto with pairing.

Lemma kp_signOut : keeps_pairing signOut.
Proof.
  unfold signOut. apply kp_bind; [auto with pairing|intros st].
  apply kp_bind; [destruct (truthy (customerAccessToken st)); auto with pairing|].
  intros _. keeps.
Qed.

Lemma kp_renewToken answer : keeps_pairing (renewToken answer).
Proof.
  unfold renewToken. apply kp_bind; [auto with pairing|intros st].
  apply kp_bind; [auto with pairing|intros r].
  destruct (data r); keeps.
Qed.

Lemma kp_renewToken_continue r : keeps_pairing (renewToken_continue r).
Proof. unfold renewToken_continue. destruct (data r); keeps. Qed.

Lemma kp_renewal_effect answer nested : keeps_pairing (renewal_effect answer nested).
Proof.
  intros w H. unfold renewal_effect.
  destruct (truthy (customerAccessToken (persisted w)) && sessionIsNew w).
  - match goal with |- exists _ _, ?m w = _ /\ _ =>
      assert (K : keeps_pairing m); [|exact (K w H)] end.
    apply kp_bind; [auto with pairing|intros r].
    destruct (data r) as [d|].
    + apply kp_bind; [auto with pairing|intros _].
      destruct (truthy (Some (accessToken d)) && _); keeps; apply kp_renewToken_continue.
    + keeps.
  - exists tt, w. split; [reflexivity|exact H].
Qed.

Lemma kp_token_setting_action c answer : keeps_pairing (token_setting_action c answer).
Proof.
  unfold token_setting_action. apply kp_bind; [auto with pairing|intros r].
  destruct (data r); keeps.
Qed.

Lemma kp_signIn answer : keeps_pairing (signIn answer).
Proof.
  unfold signIn. apply kp_bind; [auto with pairing|intros r].
  destruct (data r); keeps.
Qed.

Lemma kp_createCheckout answer : keeps_pairing (createCheckoutWithContext answer).
Proof.
  unfold createCheckoutWithContext. apply kp_bind; [auto with pairing|intros r].
  destruct (data r); keeps.
Qed.

Lemma kp_checkout_effect b answer : keeps_pairing (checkout_effect b answer).
Proof.
  intros w H. unfold checkout_effect.
  destruct (b && negb (truthy (checkoutId (persisted w)))).
  - revert w H. apply kp_bind; [apply kp_createCheckout|intros _]. keeps.
  - exists tt, w. split; [reflexivity|exact H].
Qed.

Lemma kp_addToCheckout {D} v q attrs (answer : result D) :
  keeps_pairing (addToCheckout v q attrs answer).
Proof. unfold addToCheckout. keeps. Qed.

Lemma kp_run_operation o : keeps_pairing (run_operation o).
Proof.
  destruct o; simpl.
  - apply kp_bind; [apply kp_signIn|intros _; apply kp_ret].
  - apply kp_bind; [apply kp_renewToken|intros _; apply kp_ret].
  - apply kp_signOut.
  - apply kp_renewal_effect.
  - apply kp_bind; [apply kp_token_setting_action|intros _; apply kp_ret].
  - apply kp_bind; [apply kp_token_setting_action|intros _; apply kp_ret].
  - apply kp_bind; [apply kp_token_setting_action|intros _; apply kp_ret].
  - apply kp_bind; [apply kp_createCheckout|intros _; apply kp_ret].
  - apply kp_checkout_effect.
  - apply kp_addToCheckout.
Qed.

(** X12: no sequence of caller actions and observer evaluations ever
    reaches the reducer's throwing branch, and each keeps the token and its
    expiry together: starting from a state where both are set or both are
    null, every run completes and ends in such a state. *)
Theorem run_operations_never_throw_and_pair_token :
  forall (ops : list operation) (w : World),
    token_paired (persisted w) = true ->
    exists w', run_operations ops w = Ok (tt, w') /\
               token_paired (persisted w') = true.
Proof.
  induction ops as [|o rest IH]; intros w H.
  - exists w. split; [reflexivity|exact H].
  - simpl. destruct (kp_run_operation o w H) as [[] [w1 [E H1]]].
    destruct (IH w1 H1) as [w' [E' H']].
    exists w'. unfold bind. rewrite E. split; [exact E'|exact H'].
Qed.

Lemma run_operations_never_throw_and_pair_token_witness :
  let tok := mkResult (Some (mkTokenData "tok" "2030-01-01")) [] in
  let w := {| persisted := initialState; sessionIsNew := true; trace := [] |} in
  exists w', run_operations
               [OpCheckoutEffect true (mkResult (Some (mkCheckoutData "c1")) []);
                OpSignIn tok; OpRenewToken (mkResult None []);
                OpAddToCheckout (PStr "v1") None None (mkResult None []);
                OpActivateCustomer tok; OpSignOut] w = Ok (tt, w') /\
             token_paired (persisted w') = true.
Proof. intros tok w. apply run_operations_never_throw_and_pair_token. reflexivity. Defined.

(** X13: a renewal whose answer has no data ends signed out: the persisted
    state is [initialState], [sessionIsNew] is true, and after the renew call
    the gateway is asked to delete the token it could not renew, when that
    token is truthy. *)
Theorem renewToken_failure_deletes_token :
  forall (w : World) (errors : list UserError),
    let tok := customerAccessToken (persisted w) in
    exists w', renewToken (mkResult None errors) w = Ok (mkResult None errors, w') /\
               persisted w' = initialState /\ sessionIsNew w' = true /\
               trace w' = (trace w ++ [Remote (RenewCustomerAccessToken tok)]
                           ++ (if truthy tok then [Remote (DeleteCustomerAccessToken tok)]
                               else [])
                           ++ [Dispatch RESET; SetSessionIsNew true])%list.
Proof.
  intros w errors tok.
  pose proof (renewToken_world w (mkResult None errors)) as R. simpl in R.
  destruct R as [w' [Hs Hr]]. rewrite signOut_world in Hs. injection Hs as <-.
  eexists. split; [exact Hr|]. simpl. rewrite <- app_assoc. repeat split.
Qed.

(** A single mounted instance is exactly one evaluation of the checkout
    observer. *)
Lemma checkout_effects_on_commit_single (b : bool) (a : result CheckoutData) (w : World) :
  checkout_effects_on_commit [(b, a)] w = checkout_effect b a w.
Proof.
  unfold checkout_effects_on_commit, checkout_effect, createCheckoutWithContext,
    createCheckout_continue, create_calls, create_continues, bind, get_state, ret, call.
  destruct b, (truthy (checkoutId (persisted w))); simpl; try reflexivity.
  unfold createCheckout_continue, ret.
  destruct (data a); simpl; [|reflexivity].
  destruct (dispatch (SET_CHECKOUT_ID (Some (id c))) (emit (Remote CreateCheckout) w)) as [[[] w']|]; reflexivity.
Qed.

(** C1: the awaited calls [addToCheckout(1)] twice, from the hook for
    variant 3, starting from the sequence [[{variantId: 1, quantity: 3}]]:
    the first call's duplicate test [includes(3, lineItem)] matches the
    quantity field of the variant-1 entry, so no entry is inserted for
    variant 3 and the sequence ends as [[{variantId: 3, quantity: 5}]]: the
    only entry for variant 3 has quantity 5, not [1 + 1]. *)
Theorem addToCheckout_twice_loose_match :
  let ok := mkResult (D := CheckoutData) (Some (mkCheckoutData "c")) [] in
  let w := {| persisted := {| customerAccessToken := None;
                              customerAccessTokenExpiresAt := None;
                              checkoutId := Some "c";
                              checkoutLineItems := [mkLineItem (PNum 1) 3 None] |};
              sessionIsNew := false; trace := [] |} in
  exists w1 w2,
    addToCheckout (PNum 3) (Some 1%Z) None ok w = Ok (tt, w1) /\
    addToCheckout (PNum 3) (Some 1%Z) None ok w1 = Ok (tt, w2) /\
    checkoutLineItems (persisted w2) = [mkLineItem (PNum 3) 5 None].
Proof.
  cbv. eexists. eexists. split; [reflexivity|]. split; reflexivity.
Qed.

(** X14: two awaited [addToCheckout] calls for the same string variant id
    [s] that no entry of the sequence has: the first puts the new entry at
    the front, and after the second the entry at that same position has
    variant id [s] and quantity [q1 + q2]; the rest of the sequence is
    untouched. *)
Theorem addToCheckout_twice_sums_quantity :
  forall (D : Type) (w : World) (s : string) (q1 q2 : Z)
         (a1 a2 : option (list attribute)) (r1 r2 : result D),
    ~ In (PStr s) (map variantId (checkoutLineItems (persisted w))) ->
    exists w1 w2,
      addToCheckout (PStr s) (Some q1) a1 r1 w = Ok (tt, w1) /\
      checkoutLineItems (persisted w1)
        = mkLineItem (PStr s) q1 a1 :: checkoutLineItems (persisted w) /\
      addToCheckout (PStr s) (Some q2) a2 r2 w1 = Ok (tt, w2) /\
      exists li, checkoutLineItems (persisted w2)
                   = li :: checkoutLineItems (persisted w) /\
                 variantId li = PStr s /\ quantity li = (q1 + q2)%Z.
Proof.
  intros D w s q1 q2 a1 a2 r1 r2 Hin.
  pose proof (in_variantIds_existsb s _ Hin) as Hnone.
  eexists. eexists.
  split; [apply addToCheckout_world|].
  split.
  { simpl. unfold next_line_items.
    rewrite merge_duplicates_untouched by exact Hnone. reflexivity. }
  split; [apply addToCheckout_world|].
  simpl. unfold next_line_items at 2.
  rewrite merge_duplicates_untouched by exact Hnone.
  unfold next_line_items. simpl.
  rewrite merge_duplicates_untouched by exact Hnone.
  replace (includes (PStr s) (mkLineItem (PStr s) q1 a1)) with true
    by (symmetry; apply (includes_own_variantId (mkLineItem (PStr s) q1 a1))).
  eexists. split; [reflexivity|].
  split; reflexivity.
Qed.

Lemma addToCheckout_twice_sums_quantity_witness :
  let ok := mkResult (D := CheckoutData) (Some (mkCheckoutData "c")) [] in
  let w := {| persisted := {| customerAccessToken := None;
                              customerAccessTokenExpiresAt := None;
                              checkoutId := Some "c";
                              checkoutLineItems := [mkLineItem (PStr "v2") 4 None] |};
              sessionIsNew := false; trace := [] |} in
  ~ In (PStr "v1") (map variantId (checkoutLineItems (persisted w))) /\
  exists w1 w2,
    addToCheckout (PStr "v1") (Some 2%Z) None ok w = Ok (tt, w1) /\
    checkoutLineItems (persisted w1)
      = mkLineItem (PStr "v1") 2 None :: checkoutLineItems (persisted w) /\
    addToCheckout (PStr "v1") (Some 3%Z) None ok w1 = Ok (tt, w2) /\
    exists li, checkoutLineItems (persisted w2) = li :: checkoutLineItems (persisted w) /\
               variantId li = PStr "v1" /\ quantity li = (2 + 3)%Z.
Proof.
  intros ok w.
  assert (H : ~ In (PStr "v1") (map variantId (checkoutLineItems (persisted w)))).
  { simpl. intros [E|[]]. discriminate E. }
  split; [exact H|].
  exact (addToCheckout_twice_sums_quantity CheckoutData w "v1" 2 3 None None ok ok H).
Defined.

(** C6: at startup with a persisted token ["tok1"] and [sessionIsNew] true,
    where the renewal returns the new token ["tok2"]: the dispatch of
    ["tok2"] re-runs the observer while [sessionIsNew] is still true, so
    [renewToken] is invoked a second time, with ["tok2"], before the flag is
    cleared.  Two renew calls are made in the one process, and the token
    ends as the answer of the second, ["tok3"]. *)
Theorem renewal_effect_renews_twice_at_startup :
  let ok t := mkResult (Some (mkTokenData t "2030-01-01")) [] in
  let w := {| persisted := {| customerAccessToken := Some "tok1";
                              customerAccessTokenExpiresAt := Some "2029-01-01";
                              checkoutId := None;
                              checkoutLineItems := [] |};
              sessionIsNew := true; trace := [] |} in
  exists w',
    renewal_effect (ok "tok2") (ok "tok3") w = Ok (tt, w') /\
    trace w' = [Remote (RenewCustomerAccessToken (Some "tok1"));
                Dispatch (SET_CUSTOMER_ACCESS_TOKEN (Some "tok2") (Some "2030-01-01"));
                Remote (RenewCustomerAccessToken (Some "tok2"));
                SetSessionIsNew false;
                Dispatch (SET_CUSTOMER_ACCESS_TOKEN (Some "tok3") (Some "2030-01-01"));
                SetSessionIsNew false] /\
    count_renew_calls (trace w') = 2 /\
    sessionIsNew w' = false /\
    customerAccessToken (persisted w') = Some "tok3".
Proof.
  cbv. eexists. split; [reflexivity|]. repeat split.
Qed.

(** C8: a fresh process (no checkout id persisted) that mounts a
    [useShopifyCheckoutWithContext()] and one
    [useShopifyProductVariantWithContext] in the same commit: both instances
    have [autoCreate] true and both effects see [checkoutId] null, so
    [createCheckout] is invoked twice; the checkout created first (["c1"])
    is overwritten by the second (["c2"]). *)
Theorem checkout_autocreate_per_instance :
  let ok c := mkResult (Some (mkCheckoutData c)) [] in
  let w := {| persisted := initialState; sessionIsNew := true; trace := [] |} in
  exists w',
    checkout_effects_on_commit [(true, ok "c1"); (true, ok "c2")] w = Ok (tt, w') /\
    trace w' = [Remote CreateCheckout; Remote CreateCheckout;
                Dispatch (SET_CHECKOUT_ID (Some "c1"));
                Dispatch (SET_CHECKOUT_ID (Some "c2"))] /\
    length (filter is_create_checkout_call (trace w')) = 2 /\
    checkoutId (persisted w') = Some "c2".
Proof.
  cbv. eexists. split; [reflexivity|]. repeat split.
Qed.


Lemma count_renew_calls_app (t u : list event) :
  count_renew_calls (t ++ u)%list = count_renew_calls t + count_renew_calls u.
Proof. unfold count_renew_calls. rewrite filter_app, length_app. reflexivity. Qed.

